(** * express-zod-contract: the [contract] request handler

    A shallow embedding of [src/index.ts].  The request handler built by
    [contract] is an async function with a [try]/[catch]/[finally] around
    four schema parses, the user's handler, two optional hooks, the response
    sink [res.json] and the process-wide logger.  It is embedded in a small
    monad of JavaScript computations: a world (the logger slot, the [logs]
    array of the running request, the trace of observable calls) is threaded
    through, and a computation completes normally or throws a value.

    What the adapter calls but does not define is given by its behaviour at
    the call: a schema by what [parse] returns or throws, the handler by its
    calls of [ctx] and its completion, a hook or logger by whether the call
    throws, fulfils or rejects.  The functions of [zod] and
    [zod-validation-error] that the adapter calls by name are modelled from
    their description. *)

From Stdlib Require Import String Ascii List ZArith Bool Lia.
Import ListNotations.
Open Scope string_scope.
Open Scope list_scope.

Set Implicit Arguments.
#[local] Set Warnings "-register-all".

(* ------------------------------------------------------------------ *)
(** ** Data model *)

(** [LogLevels] and [LogLevel = keyof typeof LogLevels]. *)
Module LogLevel.
Inductive t : Type := debug | info | error | warn.
End LogLevel.

Definition LogLevels (l : LogLevel.t) : Z :=
  match l with
  | LogLevel.debug => 0
  | LogLevel.info => 1
  | LogLevel.error => 2
  | LogLevel.warn => 3
  end%Z.

Module LogParams.
Record t : Type := mk {
  level : LogLevel.t;
  message : string;
  tags : list string;
  metadata : list (string * string)
}.
End LogParams.

(** One issue of a [z.ZodError]: where it occurred and what is wrong. *)
Module ZodIssue.
Record t : Type := mk {
  path : list string;
  message : string
}.
End ZodIssue.

(** JavaScript values, as far as the handler tells them apart: plain data
    (what requests carry and handlers return) and the three classes of error
    objects of the [catch] block ([z.ZodError], [ContractError], any other
    object).  [null] and [undefined] are the two values without properties. *)
Inductive JsValue : Type :=
| JsUndefined
| JsNull
| JsBool (b : bool)
| JsNumber (n : Z)
| JsString (s : string)
| JsArray (items : list JsValue)
| JsObject (fields : list (string * JsValue))
| ZodError (issues : list ZodIssue.t)
| ContractError (message : string) (code : Z)
| JsError (message : string).

(** How a call ends: with a value, or by throwing. *)
Inductive Completion (A : Type) : Type :=
| Normal (a : A)
| Throw (e : JsValue).
Arguments Normal {A} a.
Arguments Throw {A} e.

(** A call of a function typed [(...) => Promise<void>], as the caller
    that does [await f(x).catch(cb)] sees it: the call itself may throw before
    any promise exists, or it returns a promise that fulfils or rejects. *)
Inductive AsyncCall : Type :=
| ThrowsSync (e : JsValue)
| Fulfils
| Rejects (reason : JsValue).

(** A zod schema, used only through [schema.parse(raw)]. *)
Definition Schema : Type := JsValue -> Completion JsValue.

Module Request.
Record t : Type := mk {
  query : JsValue;
  params : JsValue;
  body : JsValue;
  headers : JsValue
}.
End Request.

Module Inputs.
Record t : Type := mk {
  query : JsValue;
  params : JsValue;
  body : JsValue;
  headers : JsValue
}.
End Inputs.

(** What running the user's handler on given inputs does, as seen from the
    adapter: calls of [ctx.log] and [ctx.error] in program order, ended by a
    returned (resolved) value or a thrown (rejected) one.  The continuation of
    [CallsError] is what the handler would do if [ctx.error] returned.  A
    handler that intercepts the exception of [ctx.error] itself is, for the
    adapter, a handler that did not call it: the call has no other effect. *)
Inductive HandlerRun : Type :=
| Returns (data : JsValue)
| Raises (e : JsValue)
| CallsLog (p : LogParams.t) (k : HandlerRun)
| CallsError (message : string) (code : option Z) (k : HandlerRun).

(** [ContractInput]. *)
Record ContractInput : Type := {
  query : option Schema;
  params : option Schema;
  body : option Schema;
  headers : option Schema;
  result : option Schema;
  handler : Inputs.t -> HandlerRun;
  onUnexpectedError : option (JsValue -> AsyncCall);
  beforeResponse : option (JsValue -> AsyncCall)
}.

(** The body handed to [res.json]. *)
Record Envelope : Type := {
  ok : bool;
  data : JsValue;
  errors : list string
}.

Definition LoggingFunction : Type := list LogParams.t -> AsyncCall.

Inductive Channel : Type := Query | Params | Body | Headers.

(** Calls that leave the adapter, in the order they are made. *)
Inductive Event : Type :=
| EvParse (ch : Channel) (raw : JsValue)
| EvHandler (inputs : Inputs.t)
| EvBeforeResponse (data : JsValue)
| EvOnUnexpectedError (error : JsValue)
| EvResJson (body : Envelope)
| EvLogger (logs : list LogParams.t)
| EvConsoleError (label : string) (reason : JsValue)
| EvConsoleLog (text : string).

(** The world a request runs in: [$contractContext.logger], the [logs] array
    of the request, and the calls made so far. *)
Record World : Type := {
  logger : option LoggingFunction;
  logs : list LogParams.t;
  trace : list Event
}.

(* ------------------------------------------------------------------ *)
(** ** The monad of JavaScript computations *)

Definition M (A : Type) : Type := World -> Completion A * World.

Definition ret {A} (a : A) : M A := fun w => (Normal a, w).

Definition throw {A} (e : JsValue) : M A := fun w => (Throw e, w).

Definition bind {A B} (m : M A) (k : A -> M B) : M B :=
  fun w =>
    match m w with
    | (Normal a, w') => k a w'
    | (Throw e, w') => (Throw e, w')
    end.

Declare Scope js_scope.
Delimit Scope js_scope with js.
Notation "x <- m ;; k" := (bind m (fun x => k))
  (at level 61, m at next level, right associativity) : js_scope.
Notation "m ;; k" := (bind m (fun _ => k))
  (at level 61, right associativity) : js_scope.
Open Scope js_scope.

(** [try { body } catch (error) { handle error }] *)
Definition tryCatch {A} (body : M A) (handle : JsValue -> M A) : M A :=
  fun w =>
    match body w with
    | (Normal a, w') => (Normal a, w')
    | (Throw e, w') => handle e w'
    end.

(** [try { body } finally { fin }]: [fin] always runs; if it throws, its
    exception replaces the completion of [body]. *)
Definition tryFinally {A} (body : M A) (fin : M unit) : M A :=
  fun w =>
    match body w with
    | (r, w') =>
        match fin w' with
        | (Normal _, w'') => (r, w'')
        | (Throw e, w'') => (Throw e, w'')
        end
    end.

Definition emit (ev : Event) : M unit :=
  fun w => (Normal tt,
            {| logger := logger w; logs := logs w; trace := trace w ++ [ev] |}).

Definition getLogger : M (option LoggingFunction) :=
  fun w => (Normal (logger w), w).

Definition getLogs : M (list LogParams.t) :=
  fun w => (Normal (logs w), w).

(** [const logs: LogParams[] = []] *)
Definition newLogs : M unit :=
  fun w => (Normal tt, {| logger := logger w; logs := []; trace := trace w |}).

(** [logs.push(params)] *)
Definition pushLog (p : LogParams.t) : M unit :=
  fun w => (Normal tt,
            {| logger := logger w; logs := logs w ++ [p]; trace := trace w |}).

(** [defineLogger]: the last writer wins. *)
Definition defineLogger (fn : LoggingFunction) (w : World) : World :=
  {| logger := Some fn; logs := logs w; trace := trace w |}.

(** Reading [e.stack]: a [TypeError] when [e] is [null] or [undefined], a
    value (possibly [undefined]) for everything else. *)
Definition stackTypeError : JsValue :=
  JsError "TypeError: Cannot read properties of null or undefined (reading 'stack')".

Definition isNullish (e : JsValue) : bool :=
  match e with
  | JsUndefined | JsNull => true
  | _ => false
  end.

Definition readStack (e : JsValue) : M unit :=
  if isNullish e then throw stackTypeError else ret tt.

(** [await call.catch((e) => { console.error(label, e.stack); })] where
    [call] is the application of a hook.  A synchronous throw happens before
    [.catch] is attached; a rejection runs the callback, and if the callback
    throws, the promise that is awaited rejects with that. *)
Definition awaitCatch (label : string) (call : AsyncCall) : M unit :=
  match call with
  | ThrowsSync e => throw e
  | Fulfils => ret tt
  | Rejects reason => readStack reason ;; emit (EvConsoleError label reason)
  end.

(* ------------------------------------------------------------------ *)
(** ** Library functions the handler calls *)

(** [String.prototype.split(sep)] for a non-empty separator: cut at every
    occurrence of [sep], found from the left without overlap.  [skip] counts
    the characters of a separator just matched that are still to be dropped;
    [cur] is the piece being collected. *)
Fixpoint splitFrom (sep : string) (skip : nat) (cur s : string) : list string :=
  match s with
  | EmptyString => [cur]
  | String ch rest =>
      match skip with
      | S n => splitFrom sep n cur rest
      | O =>
          if String.prefix sep s
          then cur :: splitFrom sep (String.length sep - 1) "" rest
          else splitFrom sep 0 (cur ++ String ch "")%string rest
      end
  end.

Definition split (sep s : string) : list string := splitFrom sep 0 "" s.

Definition dquote : string := String "034"%char "".

(** Modelled from the spec: the message that [zod-validation-error] renders
    for one issue is missing from the sources; the spec has the issue's field
    path and description joined into one message. *)
Definition fromZodIssue (i : ZodIssue.t) : string :=
  match ZodIssue.path i with
  | [] => ZodIssue.message i
  | p => (ZodIssue.message i ++ " at " ++ dquote ++ String.concat "." p ++ dquote)%string
  end.

(** Modelled from the spec: [fromZodError(error, { issueSeparator }).message]
    of [zod-validation-error] is missing from the sources; the spec has the
    issues' messages joined with the separator, in the order reported. *)
Definition fromZodError (issueSeparator : string) (issues : list ZodIssue.t) : string :=
  String.concat issueSeparator (map fromZodIssue issues).

Definition isString (v : JsValue) : bool :=
  match v with JsString _ => true | _ => false end.

(** Modelled from the spec: [z.record(z.string()).parse] of [zod] is missing
    from the sources; the spec has a validation against a mapping of string
    to string.  An object all of whose values are strings is returned as it
    is; anything else raises a [ZodError] with one issue per offending entry
    (one issue at the root for a value that is no object). *)
Definition zRecordString : Schema :=
  fun raw =>
    match raw with
    | JsObject fields =>
        match filter (fun kv => negb (isString (snd kv))) fields with
        | [] => Normal (JsObject fields)
        | bad =>
            Throw (ZodError
                     (map (fun kv => ZodIssue.mk [fst kv] "Expected string") bad))
        end
    | _ => Throw (ZodError [ZodIssue.mk [] "Expected object"])
    end.

(* ------------------------------------------------------------------ *)
(** ** [contract] *)

(** [ContractOutput], the [ctx] handed to the handler. *)
Record ContractOutput : Type := {
  log : LogParams.t -> M unit;
  error : string -> option Z -> M unit
}.

(** The handler's run against a given [ctx]. *)
Fixpoint runHandler (ctx : ContractOutput) (h : HandlerRun) : M JsValue :=
  match h with
  | Returns d => ret d
  | Raises e => throw e
  | CallsLog p k => log ctx p ;; runHandler ctx k
  | CallsError message code k => error ctx message code ;; runHandler ctx k
  end.

(** [schema.parse(raw)] *)
Definition parse (ch : Channel) (schema : Schema) (raw : JsValue) : M JsValue :=
  emit (EvParse ch raw) ;;
  match schema raw with
  | Normal v => ret v
  | Throw e => throw e
  end.

(** [res.json(body)]: the response sink takes the body.  Serialisation of
    the body by the server framework is outside the adapter and is taken to
    succeed. *)
Definition resJson (b : Envelope) : M unit := emit (EvResJson b).

(** Lines 73-83: the four inputs, parsed in program order. *)
Definition parseInputs (contract : ContractInput) (req : Request.t) : M Inputs.t :=
  query <- match query contract with
           | Some s => parse Query s (Request.query req)
           | None => ret (Request.query req)
           end ;;
  params <- match params contract with
            | Some s => parse Params s (Request.params req)
            | None => ret (Request.params req)
            end ;;
  body <- match body contract with
          | Some s => parse Body s (Request.body req)
          | None => ret (Request.body req)
          end ;;
  headers <- match headers contract with
             | Some s => parse Headers s (Request.headers req)
             | None => parse Headers zRecordString (Request.headers req)
             end ;;
  ret (Inputs.mk query params body headers).

(** Lines 85-90: [ctx]. *)
Definition ctx : ContractOutput :=
  {| log := fun params => pushLog params;
     error := fun message code =>
                throw (ContractError message
                         (match code with Some c => c | None => 400%Z end)) |}.

(** Lines 73-104, the [try] block. *)
Definition tryBlock (contract : ContractInput) (req : Request.t) : M unit :=
  inputs <- parseInputs contract req ;;
  data <- (emit (EvHandler inputs) ;; runHandler ctx (handler contract inputs)) ;;
  match beforeResponse contract with
  | Some hook =>
      emit (EvBeforeResponse data) ;;
      awaitCatch "Error occured in beforeResponse hook:" (hook data)
  | None => ret tt
  end ;;
  resJson {| ok := true; data := data; errors := [] |}.

(** Lines 105-131, the [catch] block. *)
Definition catchBlock (contract : ContractInput) (error : JsValue) : M unit :=
  match error with
  | ZodError issues =>
      let validationError := fromZodError ";;;" issues in
      resJson {| ok := false; data := JsNull;
                 errors := split ";;;" validationError |}
  | ContractError message _ =>
      resJson {| ok := false; data := JsNull; errors := [message] |}
  | _ =>
      match onUnexpectedError contract with
      | Some hook =>
          emit (EvOnUnexpectedError error) ;;
          awaitCatch "Error occured in onUnexpectedError hook:" (hook error)
      | None => ret tt
      end ;;
      resJson {| ok := false; data := JsNull;
                 errors := ["Something went wrong"] |}
  end.

(** Lines 132-138, the [finally] block. *)
Definition finallyBlock : M unit :=
  l <- getLogger ;;
  match l with
  | Some fn =>
      logs <- getLogs ;;
      emit (EvLogger logs) ;;
      awaitCatch "Error occured in logger:" (fn logs)
  | None => emit (EvConsoleLog "No logger defined")
  end.

(** The [try]/[catch] without its [finally]. *)
Definition attempt (contract : ContractInput) (req : Request.t) : M unit :=
  tryCatch (tryBlock contract req) (catchBlock contract).

(** The request handler that [contract] returns. *)
Definition contract (contract : ContractInput) (req : Request.t) : M unit :=
  newLogs ;;
  tryFinally (attempt contract req) finallyBlock.

(** A fresh process in which [defineLogger] was or was not called. *)
Definition startWorld (l : option LoggingFunction) : World :=
  {| logger := l; logs := []; trace := [] |}.

(** The handler's promise and the calls made, for one request. *)
Definition run (c : ContractInput) (req : Request.t) (l : option LoggingFunction)
  : Completion unit * list Event :=
  let '(r, w) := contract c req (startWorld l) in (r, trace w).

(* ------------------------------------------------------------------ *)
(** ** Observations on a run *)

Section Collect.
Variable A : Type.
Variable pick : Event -> option A.

Fixpoint collect (tr : list Event) : list A :=
  match tr with
  | [] => []
  | ev :: rest =>
      match pick ev with
      | Some a => a :: collect rest
      | None => collect rest
      end
  end.
End Collect.

(** The bodies handed to [res.json], in order. *)
Definition responses : list Event -> list Envelope :=
  collect (fun ev => match ev with EvResJson b => Some b | _ => None end).

(** The channels whose validator was invoked, in order. *)
Definition parsed : list Event -> list Channel :=
  collect (fun ev => match ev with EvParse ch _ => Some ch | _ => None end).

(** The inputs the handler was invoked with. *)
Definition handled : list Event -> list Inputs.t :=
  collect (fun ev => match ev with EvHandler i => Some i | _ => None end).

(** The arguments [beforeResponse] was invoked with. *)
Definition hooked : list Event -> list JsValue :=
  collect (fun ev => match ev with EvBeforeResponse d => Some d | _ => None end).

(** The errors [onUnexpectedError] was invoked with. *)
Definition reported : list Event -> list JsValue :=
  collect (fun ev => match ev with EvOnUnexpectedError e => Some e | _ => None end).

(** The log sequences delivered to the logger. *)
Definition flushed : list Event -> list (list LogParams.t) :=
  collect (fun ev => match ev with EvLogger l => Some l | _ => None end).

(** What the handler's run appends to [logs] under [ctx], and how it ends:
    the first [ctx.error] throws, so nothing after it happens. *)
Fixpoint logged (h : HandlerRun) : list LogParams.t :=
  match h with
  | CallsLog p k => p :: logged k
  | _ => []
  end.

Fixpoint completion (h : HandlerRun) : Completion JsValue :=
  match h with
  | Returns d => Normal d
  | Raises e => Throw e
  | CallsLog _ k => completion k
  | CallsError message code _ =>
      Throw (ContractError message (match code with Some c => c | None => 400%Z end))
  end.

(** The first call of [ctx.error] that the handler's run reaches. *)
Fixpoint firstError (h : HandlerRun) : option (string * option Z) :=
  match h with
  | CallsLog _ k => firstError k
  | CallsError message code _ => Some (message, code)
  | _ => None
  end.

(** The validator of a channel and the raw field it is applied to.  The
    headers always have one. *)
Definition schemaOf (c : ContractInput) (ch : Channel) : option Schema :=
  match ch with
  | Query => query c
  | Params => params c
  | Body => body c
  | Headers => Some (match headers c with Some s => s | None => zRecordString end)
  end.

Definition rawOf (req : Request.t) (ch : Channel) : JsValue :=
  match ch with
  | Query => Request.query req
  | Params => Request.params req
  | Body => Request.body req
  | Headers => Request.headers req
  end.

(** What validating one channel on its own gives. *)
Definition parseOutcome (c : ContractInput) (req : Request.t) (ch : Channel)
  : Completion JsValue :=
  match schemaOf c ch with
  | Some s => s (rawOf req ch)
  | None => Normal (rawOf req ch)
  end.

Definition position (ch : Channel) : nat :=
  match ch with Query => 0 | Params => 1 | Body => 2 | Headers => 3 end.

Definition channels : list Channel := [Query; Params; Body; Headers].

(** The channels that have a validator, in the fixed order. *)
Definition configured (c : ContractInput) : list Channel :=
  filter (fun ch => match schemaOf c ch with Some _ => true | None => false end)
         channels.

Definition passes (c : ContractInput) (req : Request.t) (ch : Channel) : Prop :=
  exists v, parseOutcome c req ch = Normal v.

(** [ch] is the first channel whose validator throws, and it throws [e]. *)
Definition firstFailure (c : ContractInput) (req : Request.t) (ch : Channel)
           (e : JsValue) : Prop :=
  parseOutcome c req ch = Throw e /\
  forall ch', position ch' < position ch -> passes c req ch'.

(** The completion and the calls of a computation started in a fresh world. *)
Definition resultOf {A} (m : M A) : Completion A := fst (m (startWorld None)).
Definition eventsOf {A} (m : M A) : list Event := trace (snd (m (startWorld None))).

Definition addEvents (w : World) (evs : list Event) : World :=
  {| logger := logger w; logs := logs w; trace := trace w ++ evs |}.

Definition addLogs (w : World) (ps : list LogParams.t) : World :=
  {| logger := logger w; logs := logs w ++ ps; trace := trace w |}.

(** The envelope invariant: a success carries no errors and the value the
    handler returned; a failure carries [null] and at least one message. *)
Definition wellFormed (c : ContractInput) (tr : list Event) (b : Envelope) : Prop :=
  (ok b = true ->
     errors b = [] /\
     exists inputs, In inputs (handled tr) /\
                    completion (handler c inputs) = Normal (data b)) /\
  (ok b = false -> data b = JsNull /\ 1 <= length (errors b)).

(** The outcome and the calls of the parse stage. *)
Definition validation (c : ContractInput) (req : Request.t) : Completion Inputs.t :=
  resultOf (parseInputs c req).

Definition parseCalls (c : ContractInput) (req : Request.t) : list Event :=
  eventsOf (parseInputs c req).

(** The two shapes of envelope. *)
Definition success (d : JsValue) : Envelope :=
  {| ok := true; data := d; errors := [] |}.

Definition failure (b : Envelope) : Prop :=
  ok b = false /\ data b = JsNull /\ 1 <= length (errors b).

(** [sub] occurs somewhere in [s]. *)
Fixpoint occurs (sub s : string) : bool :=
  String.prefix sub s ||
  match s with
  | EmptyString => false
  | String _ rest => occurs sub rest
  end.

(** The last character of [s] is a semicolon. *)
Fixpoint endsWithSemicolon (s : string) : bool :=
  match s with
  | EmptyString => false
  | String ch EmptyString => Ascii.eqb ch ";"
  | String _ rest => endsWithSemicolon rest
  end.

(** Messages that survive being joined with [";;;"] and split again: none
    contains the separator, and none but the last ends with a semicolon
    (which would run into the separator that follows it). *)
Fixpoint unambiguous (ms : list string) : bool :=
  match ms with
  | [] => true
  | [m] => negb (occurs ";;;" m)
  | m :: rest =>
      negb (occurs ";;;" m) && negb (endsWithSemicolon m) && unambiguous rest
  end.

(* ------------------------------------------------------------------ *)
(** ** Sample inputs *)

Definition sampleRequest : Request.t :=
  Request.mk (JsObject [("page", JsString "1")])
             (JsObject [("id", JsString "42")])
             (JsObject [("name", JsString "zod")])
             (JsObject [("host", JsString "localhost")]).

Definition sampleLog : LogParams.t :=
  LogParams.mk LogLevel.info "test" ["abc"] [].

(** A schema that accepts everything, and one that reports given issues. *)
Definition accepting : Schema := fun raw => Normal raw.

Definition rejecting (issues : list ZodIssue.t) : Schema :=
  fun _ => Throw (ZodError issues).

(** A contract without validators and hooks around a handler. *)
Definition bare (h : Inputs.t -> HandlerRun) : ContractInput :=
  {| query := None; params := None; body := None; headers := None;
     result := None; handler := h;
     onUnexpectedError := None; beforeResponse := None |}.

(** The handler of the repository's example: it logs once and returns. *)
Definition sampleHandler : Inputs.t -> HandlerRun :=
  fun _ => CallsLog sampleLog (Returns (JsObject [("test", JsString "A")])).

Definition splitIssues : list ZodIssue.t := [ZodIssue.mk [] "a;;;b"].

Definition sampleIssues : list ZodIssue.t :=
  [ZodIssue.mk ["name"] "Required"; ZodIssue.mk [] "Too long;"].

(** A query validator that reports [issues]; the body has a validator too. *)
Definition queryRejects (issues : list ZodIssue.t) : ContractInput :=
  {| query := Some (rejecting issues); params := None;
     body := Some accepting; headers := None;
     result := None; handler := sampleHandler;
     onUnexpectedError := None; beforeResponse := None |}.

(** A handler that logs and then calls [ctx.error("bad input", 422)]. *)
Definition badInputHandler : Inputs.t -> HandlerRun :=
  fun _ => CallsLog sampleLog
             (CallsError "bad input" (Some 422%Z) (Returns JsUndefined)).

(** A handler that fails with an error of its own, and hooks and loggers
    that fail: by throwing before they return a promise, or by returning a
    promise that rejects without a reason. *)
Definition failingHandler : Inputs.t -> HandlerRun :=
  fun _ => Raises (JsError "db down").

Definition throwingHook : JsValue -> AsyncCall :=
  fun _ => ThrowsSync (JsError "hook down").

Definition bareRejectingHook : JsValue -> AsyncCall :=
  fun _ => Rejects JsUndefined.

Definition throwingLogger : LoggingFunction :=
  fun _ => ThrowsSync (JsError "sink down").

Definition bareRejectingLogger : LoggingFunction :=
  fun _ => Rejects JsUndefined.

Definition quietLogger : LoggingFunction := fun _ => Fulfils.

Definition withOnUnexpectedError (hook : JsValue -> AsyncCall) : ContractInput :=
  {| query := None; params := None; body := None; headers := None;
     result := None; handler := failingHandler;
     onUnexpectedError := Some hook; beforeResponse := None |}.

Definition withBeforeResponse (hook : JsValue -> AsyncCall) : ContractInput :=
  {| query := None; params := None; body := None; headers := None;
     result := None; handler := sampleHandler;
     onUnexpectedError := None; beforeResponse := Some hook |}.

(** Errors that are neither a [ZodError] nor a [ContractError]. *)
Definition unexpected (e : JsValue) : bool :=
  match e with
  | ZodError _ | ContractError _ _ => false
  | _ => true
  end.

(** Calls whose failure [.catch] absorbs: the call returned a promise, and
    the promise fulfilled or rejected with a reason that has properties. *)
Definition absorbed (call : AsyncCall) : bool :=
  match call with
  | ThrowsSync _ => false
  | Fulfils => true
  | Rejects reason => negb (isNullish reason)
  end.

Definition somethingWentWrong : Envelope :=
  {| ok := false; data := JsNull; errors := ["Something went wrong"] |}.

(* ------------------------------------------------------------------ *)
(** ** Further sample inputs *)

(** A params schema that coerces: what it returns is not the raw value. *)
Definition coercingParams : Schema :=
  fun _ => Normal (JsObject [("id", JsNumber 42)]).

(** A schema whose transform throws an error of its own. *)
Definition throwingSchema : Schema :=
  fun _ => Throw (JsError "transform failed").

(** A handler that logs and then fails with a [ZodError] of its own, as when
    it parses something with zod itself. *)
Definition zodThrowingHandler : Inputs.t -> HandlerRun :=
  fun _ => CallsLog sampleLog (Raises (ZodError sampleIssues)).

(** A handler that does [throw new ContractError("forbidden", 403)]. *)
Definition forbiddenHandler : Inputs.t -> HandlerRun :=
  fun _ => Raises (ContractError "forbidden" 403).

(** A hook or logger that rejects with an error object. *)
Definition rejectingHook : JsValue -> AsyncCall :=
  fun _ => Rejects (JsError "hook down").

Definition rejectingLogger : LoggingFunction :=
  fun _ => Rejects (JsError "sink down").

(** Hooks and loggers all of whose calls [.catch] absorbs. *)
Definition hookAbsorbed (hook : option (JsValue -> AsyncCall)) : Prop :=
  forall h x, hook = Some h -> absorbed (h x) = true.

Definition loggerAbsorbed (l : option LoggingFunction) : Prop :=
  forall fn delivered, l = Some fn -> absorbed (fn delivered) = true.



(** A contract whose query schema throws an error of its own, with an
    [onUnexpectedError] hook that rejects with an error object. *)
Definition queryThrows : ContractInput :=
  {| query := Some throwingSchema; params := None; body := None; headers := None;
     result := None; handler := sampleHandler;
     onUnexpectedError := Some rejectingHook; beforeResponse := None |}.

(** A contract whose params schema coerces. *)
Definition paramsCoerced : ContractInput :=
  {| query := None; params := Some coercingParams; body := None; headers := None;
     result := None; handler := sampleHandler;
     onUnexpectedError := None; beforeResponse := None |}.

(** The inputs the sample request gives without validators. *)
Definition sampleInputs : Inputs.t :=
  Inputs.mk (Request.query sampleRequest) (Request.params sampleRequest)
            (Request.body sampleRequest) (Request.headers sampleRequest).

(* ------------------------------------------------------------------ *)
(** * Properties *)

Lemma collect_app A (pick : Event -> option A) tr1 tr2 :
  collect pick (tr1 ++ tr2) = collect pick tr1 ++ collect pick tr2.
Proof.
  induction tr1 as [|ev tr1 IH]; simpl; [reflexivity|].
  destruct (pick ev); simpl; now rewrite IH.
Qed.

Lemma responses_app tr1 tr2 : responses (tr1 ++ tr2) = responses tr1 ++ responses tr2.
Proof. apply collect_app. Qed.
Lemma parsed_app tr1 tr2 : parsed (tr1 ++ tr2) = parsed tr1 ++ parsed tr2.
Proof. apply collect_app. Qed.
Lemma handled_app tr1 tr2 : handled (tr1 ++ tr2) = handled tr1 ++ handled tr2.
Proof. apply collect_app. Qed.
Lemma hooked_app tr1 tr2 : hooked (tr1 ++ tr2) = hooked tr1 ++ hooked tr2.
Proof. apply collect_app. Qed.
Lemma reported_app tr1 tr2 : reported (tr1 ++ tr2) = reported tr1 ++ reported tr2.
Proof. apply collect_app. Qed.
Lemma flushed_app tr1 tr2 : flushed (tr1 ++ tr2) = flushed tr1 ++ flushed tr2.
Proof. apply collect_app. Qed.

Create Rewrite HintDb obs.
#[local] Hint Rewrite responses_app parsed_app handled_app hooked_app
  reported_app flushed_app app_nil_r app_nil_l : obs.

(** The handler's run under [ctx]: it only appends to [logs]. *)
Lemma runHandler_eq h w :
  runHandler ctx h w = (completion h, addLogs w (logged h)).
Proof.
  revert w. induction h as [d|e|p k IH|message code k IH]; intros w; simpl.
  - unfold ret, addLogs. now rewrite app_nil_r; destruct w.
  - unfold throw, addLogs. now rewrite app_nil_r; destruct w.
  - unfold bind, pushLog. rewrite IH. unfold addLogs. simpl.
    now rewrite <- app_assoc.
  - unfold bind, throw, addLogs. now rewrite app_nil_r; destruct w.
Qed.

(** The parse stage does not read the world: it only appends its calls. *)
Lemma parseInputs_frame c req w :
  parseInputs c req w =
  (resultOf (parseInputs c req), addEvents w (eventsOf (parseInputs c req))).
Proof.
  unfold resultOf, eventsOf, parseInputs, parse, bind, emit, ret, throw, addEvents, startWorld.
  destruct w as [l lg tr].
  destruct (query c) as [s1|]; [destruct (s1 (Request.query req))|];
    (destruct (params c) as [s2|]; [destruct (s2 (Request.params req))|]);
    (destruct (body c) as [s3|]; [destruct (s3 (Request.body req))|]);
    (destruct (headers c) as [s4|];
     [destruct (s4 (Request.headers req))
     |destruct (zRecordString (Request.headers req))]);
    simpl; rewrite <- ?app_assoc, ?app_nil_r; reflexivity.
Qed.

Ltac js :=
  cbv beta iota zeta delta
    [bind ret throw emit tryCatch tryFinally getLogger getLogs newLogs pushLog
     awaitCatch readStack resJson parse logger logs trace addEvents addLogs
     startWorld fst snd].

Ltac obs := cbn [collect responses handled parsed hooked reported flushed app].

Lemma finallyBlock_spec w :
  exists r post,
    finallyBlock w = (r, addEvents w post) /\
    responses post = [] /\ handled post = [] /\ parsed post = [] /\
    reported post = [] /\ hooked post = [] /\
    flushed post = match logger w with Some _ => [logs w] | None => [] end.
Proof.
  unfold finallyBlock. destruct w as [[fn|] lg tr]; js.
  - destruct (fn lg) as [e| |reason]; js; [| |destruct (isNullish reason); js].
    all: eexists; eexists; (split; [rewrite <- ?app_assoc; reflexivity|]).
    all: repeat split; reflexivity.
  - eexists; eexists; split; [reflexivity|]. repeat split; reflexivity.
Qed.

Lemma run_eq c req l :
  run c req l =
  let '(r1, w1) := attempt c req (startWorld l) in
  let '(r2, w2) := finallyBlock w1 in
  (match r2 with Normal _ => r1 | Throw e => Throw e end, trace w2).
Proof.
  unfold run, contract. js.
  destruct (attempt c req _) as [r1 w1].
  destruct (finallyBlock w1) as [[[]|e] w2]; reflexivity.
Qed.

Lemma splitFrom_length sep s : forall skip cur, 1 <= length (splitFrom sep skip cur s).
Proof.
  induction s as [|ch rest IH]; intros skip cur; cbn [splitFrom]; [simpl; lia|].
  destruct skip; [|apply IH].
  destruct (String.prefix sep (String ch rest)); [simpl; lia|apply IH].
Qed.

(** The [catch] block does not read the world: it only appends its calls. *)
Lemma catchBlock_frame c e w :
  catchBlock c e w =
  (resultOf (catchBlock c e), addEvents w (eventsOf (catchBlock c e))).
Proof.
  unfold resultOf, eventsOf, catchBlock.
  destruct w as [l lg tr].
  destruct e; js.
  all: try (destruct (onUnexpectedError c) as [hook|]; js;
            [match goal with
             | |- context [hook ?x] => destruct (hook x) as [e'| |reason]
             end; js; [| |destruct (isNullish reason); js]|]).
  all: rewrite <- ?app_assoc; reflexivity.
Qed.

(** It calls neither validators nor the handler nor the logger, and hands
    at most one body to [res.json], a failure. *)
Lemma catchBlock_quiet c e :
  handled (eventsOf (catchBlock c e)) = [] /\
  parsed (eventsOf (catchBlock c e)) = [] /\
  hooked (eventsOf (catchBlock c e)) = [] /\
  flushed (eventsOf (catchBlock c e)) = [] /\
  Forall failure (responses (eventsOf (catchBlock c e))) /\
  length (responses (eventsOf (catchBlock c e))) <= 1.
Proof.
  unfold eventsOf, catchBlock, failure.
  destruct e; js.
  all: try (destruct (onUnexpectedError c) as [hook|]; js;
            [match goal with
             | |- context [hook ?x] => destruct (hook x) as [e'| |reason]
             end; js; [| |destruct (isNullish reason); js]|]).
  all: obs; repeat split; repeat constructor; cbn [ok data errors length]; try lia.
  apply splitFrom_length.
Qed.

Lemma attempt_eq c req w :
  attempt c req w =
  let w0 := addEvents w (parseCalls c req) in
  match validation c req with
  | Throw e => catchBlock c e w0
  | Normal i =>
      let w1 := addLogs (addEvents w0 [EvHandler i]) (logged (handler c i)) in
      match completion (handler c i) with
      | Throw e => catchBlock c e w1
      | Normal d =>
          match beforeResponse c with
          | None => (Normal tt, addEvents w1 [EvResJson (success d)])
          | Some hook =>
              let w2 := addEvents w1 [EvBeforeResponse d] in
              match hook d with
              | ThrowsSync e => catchBlock c e w2
              | Fulfils => (Normal tt, addEvents w2 [EvResJson (success d)])
              | Rejects reason =>
                  if isNullish reason then catchBlock c stackTypeError w2
                  else (Normal tt,
                        addEvents w2
                          [EvConsoleError "Error occured in beforeResponse hook:" reason;
                           EvResJson (success d)])
              end
          end
      end
  end.
Proof.
  unfold attempt, tryBlock, validation, parseCalls, success.
  destruct w as [l lg tr].
  cbv beta iota zeta delta [tryCatch bind].
  rewrite parseInputs_frame.
  destruct (resultOf (parseInputs c req)) as [i|e]; [|reflexivity].
  cbv beta iota zeta delta [emit]. rewrite runHandler_eq.
  destruct (completion (handler c i)) as [d|e]; [|reflexivity].
  destruct (beforeResponse c) as [hook|]; js; [|reflexivity].
  destruct (hook d) as [e| |reason]; js; [| |destruct (isNullish reason); js];
    rewrite <- ?app_assoc; reflexivity.
Qed.

Ltac parse_cases c req :=
  unfold validation, parseCalls, resultOf, eventsOf, parseInputs, parseOutcome,
    schemaOf, rawOf in *;
  js;
  destruct (query c) as [s1|]; [destruct (s1 (Request.query req)) eqn:?|];
  (destruct (params c) as [s2|]; [destruct (s2 (Request.params req)) eqn:?|]);
  (destruct (body c) as [s3|]; [destruct (s3 (Request.body req)) eqn:?|]);
  (destruct (headers c) as [s4|];
   [destruct (s4 (Request.headers req)) eqn:?
   |destruct (zRecordString (Request.headers req)) eqn:?]);
  js; obs.

Lemma parseCalls_quiet c req :
  responses (parseCalls c req) = [] /\ handled (parseCalls c req) = [] /\
  hooked (parseCalls c req) = [] /\ reported (parseCalls c req) = [] /\
  flushed (parseCalls c req) = [].
Proof. parse_cases c req; repeat split; reflexivity. Qed.

Ltac use_catch :=
  match goal with
  | |- context [catchBlock ?c ?e ?w] =>
      rewrite (catchBlock_frame c e w);
      destruct (catchBlock_quiet c e) as (?Hh & ?Hp & ?Hk & ?Hf & ?Hr & ?Hl)
  end.

Ltac use_finally :=
  match goal with
  | |- context [finallyBlock ?w] =>
      let r := fresh "r" in
      let post := fresh "post" in
      let E := fresh "E" in
      destruct (finallyBlock_spec w)
        as (r & post & E & ?Fr & ?Fh & ?Fp & ?Fe & ?Fk & ?Ff);
      rewrite E; clear E
  end.

Ltac branches c req :=
  rewrite run_eq, attempt_eq; cbv zeta;
  destruct (validation c req) as [i|e] eqn:V;
  [destruct (completion (handler c i)) as [d|e] eqn:K;
   [destruct (beforeResponse c) as [hook|] eqn:B;
    [destruct (hook d) as [e| |reason] eqn:H;
     [| |destruct (isNullish reason) eqn:N]|]|]|];
  try use_catch; use_finally.

Lemma wellFormed_failure c tr b : failure b -> wellFormed c tr b.
Proof.
  intros (Hok & Hd & He). split; intros Ht; [congruence|auto].
Qed.




(** *** Joining with [";;;"] and splitting again *)

Lemma append_empty_r (s : string) : (s ++ "")%string = s.
Proof. induction s as [|ch s IH]; simpl; [reflexivity|now rewrite IH]. Qed.

Lemma append_assoc (a b c : string) : ((a ++ b) ++ c)%string = (a ++ (b ++ c))%string.
Proof. induction a as [|ch a IH]; simpl; [reflexivity|now rewrite IH]. Qed.

Lemma prefix_empty s : String.prefix "" s = true.
Proof. now destruct s. Qed.

Lemma occurs_cons sub ch s :
  occurs sub (String ch s) = false ->
  String.prefix sub (String ch s) = false /\ occurs sub s = false.
Proof. cbn [occurs]. intros H. now apply orb_false_iff in H. Qed.

(** An occurrence of the separator cannot start inside a message that
    contains none and does not end with a semicolon. *)
Lemma no_early_match ch m s :
  occurs ";;;" (String ch m) = false ->
  endsWithSemicolon (String ch m) = false ->
  String.prefix ";;;" (String ch (m ++ ";;;" ++ s)%string) = false.
Proof.
  intros O E. apply occurs_cons in O. destruct O as [P _].
  revert P E. cbn [String.prefix].
  destruct (ascii_dec ";" ch) as [<-|]; [|reflexivity].
  destruct m as [|b m]; [discriminate|].
  cbn [append String.prefix].
  destruct (ascii_dec ";" b) as [<-|]; [|reflexivity].
  destruct m as [|d m]; [discriminate|].
  cbn [append String.prefix].
  destruct (ascii_dec ";" d) as [<-|]; [|reflexivity].
  now rewrite prefix_empty.
Qed.

Lemma endsWithSemicolon_tail ch m :
  endsWithSemicolon (String ch m) = false -> endsWithSemicolon m = false.
Proof. destruct m; [reflexivity|auto]. Qed.

Lemma splitFrom_piece m : forall cur s,
  occurs ";;;" m = false ->
  endsWithSemicolon m = false ->
  splitFrom ";;;" 0 cur (m ++ ";;;" ++ s)%string =
  (cur ++ m)%string :: splitFrom ";;;" 0 "" s.
Proof.
  induction m as [|ch m IH]; intros cur s O E.
  - rewrite append_empty_r. cbn. rewrite prefix_empty. reflexivity.
  - change (String ch m ++ ";;;" ++ s)%string
      with (String ch (m ++ ";;;" ++ s)%string).
    cbn [splitFrom].
    rewrite no_early_match by assumption.
    rewrite IH.
    + now rewrite append_assoc.
    + now apply occurs_cons in O.
    + now apply endsWithSemicolon_tail in E.
Qed.

Lemma splitFrom_last m : forall cur,
  occurs ";;;" m = false ->
  splitFrom ";;;" 0 cur m = [(cur ++ m)%string].
Proof.
  induction m as [|ch m IH]; intros cur O.
  - now rewrite append_empty_r.
  - apply occurs_cons in O. destruct O as [P O].
    cbn [splitFrom]. rewrite P, IH by assumption.
    now rewrite append_assoc.
Qed.

Lemma split_concat ms :
  ms <> [] -> unambiguous ms = true ->
  split ";;;" (String.concat ";;;" ms) = ms.
Proof.
  unfold split.
  induction ms as [|m rest IH]; intros NE U; [congruence|].
  destruct rest as [|m' rest].
  - cbn [String.concat unambiguous] in *.
    apply negb_true_iff in U. now rewrite splitFrom_last.
  - cbn [unambiguous] in U.
    apply andb_prop in U. destruct U as [U U3].
    apply andb_prop in U. destruct U as [U1 U2].
    apply negb_true_iff in U1, U2.
    change (String.concat ";;;" (m :: m' :: rest))
      with (m ++ ";;;" ++ String.concat ";;;" (m' :: rest))%string.
    rewrite splitFrom_piece by assumption.
    rewrite IH by (assumption || discriminate). reflexivity.
Qed.

Lemma firstFailure_validation c req ch e :
  firstFailure c req ch e -> validation c req = Throw e.
Proof.
  intros (F & Earlier).
  assert (Q : 0 < position ch -> passes c req Query)
    by (intros; apply Earlier; assumption).
  assert (P : 1 < position ch -> passes c req Params)
    by (intros; apply Earlier; assumption).
  assert (B : 2 < position ch -> passes c req Body)
    by (intros; apply Earlier; assumption).
  clear Earlier. unfold passes in *.
  destruct ch; cbn [position] in *; parse_cases c req.
  all: try congruence.
  all: try (destruct Q as [? Q]; [lia|congruence]).
  all: try (destruct P as [? P]; [lia|congruence]).
  all: try (destruct B as [? B]; [lia|congruence]).
Qed.

Lemma firstError_completion h message code :
  firstError h = Some (message, code) ->
  completion h =
  Throw (ContractError message (match code with Some c => c | None => 400%Z end)).
Proof.
  induction h as [d|e|p k IH|m c k IH]; cbn; intros E; try discriminate.
  - auto.
  - now inversion E.
Qed.

(** The handler is invoked at most once, and only with the parsed inputs. *)
Lemma handled_validation c req l inputs :
  In inputs (handled (snd (run c req l))) -> validation c req = Normal inputs.
Proof.
  destruct (parseCalls_quiet c req) as (Pr & Ph & Pk & Pe & Pf).
  branches c req; js; autorewrite with obs.
  all: rewrite ?Ph, ?Hh, ?Fh; obs; cbn [In]; intuition congruence.
Qed.


(** *** Sample runs *)

(** The repository's example: the query has a validator, the handler logs
    once and returns, and a logger is defined. *)
Example sample_success :
  run {| query := Some accepting; params := None; body := None; headers := None;
         result := None; handler := sampleHandler;
         onUnexpectedError := None; beforeResponse := None |}
      sampleRequest (Some quietLogger) =
  (Normal tt,
   [EvParse Query (Request.query sampleRequest);
    EvParse Headers (Request.headers sampleRequest);
    EvHandler (Inputs.mk (Request.query sampleRequest) (Request.params sampleRequest)
                         (Request.body sampleRequest) (Request.headers sampleRequest));
    EvResJson (success (JsObject [("test", JsString "A")]));
    EvLogger [sampleLog]]).
Proof. reflexivity. Qed.

(** A header with a value that is no string fails the default validation
    of the headers: the handler is not reached. *)
Example sample_bad_header :
  run (bare sampleHandler)
      (Request.mk JsNull JsNull JsNull
                  (JsObject [("host", JsString "localhost");
                             ("set-cookie", JsArray [JsString "a=1"])]))
      None =
  (Normal tt,
   [EvParse Headers (JsObject [("host", JsString "localhost");
                               ("set-cookie", JsArray [JsString "a=1"])]);
    EvResJson {| ok := false; data := JsNull;
                 errors := [fromZodIssue (ZodIssue.mk ["set-cookie"] "Expected string")] |};
    EvConsoleLog "No logger defined"]).
Proof. reflexivity. Qed.

(** A rejection with an error object is absorbed by [.catch] and reported
    on the console. *)
Example sample_rejecting_logger :
  run (bare badInputHandler) sampleRequest
      (Some (fun _ => Rejects (JsError "sink down"))) =
  (Normal tt,
   [EvParse Headers (Request.headers sampleRequest);
    EvHandler (Inputs.mk (Request.query sampleRequest) (Request.params sampleRequest)
                         (Request.body sampleRequest) (Request.headers sampleRequest));
    EvResJson {| ok := false; data := JsNull; errors := ["bad input"] |};
    EvLogger [sampleLog];
    EvConsoleError "Error occured in logger:" (JsError "sink down")]).
Proof. reflexivity. Qed.

(** [defineLogger] replaces whatever logger was defined before. *)
Lemma defineLogger_last_wins fn l :
  defineLogger fn (startWorld l) = startWorld (Some fn).
Proof. reflexivity. Qed.

(** *** What holds on every run *)


(** X15: the bodies handed to [res.json] do not depend on the logger:
    whether one is defined and whatever it does, they are those of a run
    without logger. *)
Lemma response_unaffected_by_logger c req l :
  responses (snd (run c req l)) = responses (snd (run c req None)).
Proof.
  rewrite !run_eq, !attempt_eq; cbv zeta.
  destruct (validation c req) as [i|e] eqn:V;
  [destruct (completion (handler c i)) as [d|e] eqn:K;
   [destruct (beforeResponse c) as [hook|] eqn:B;
    [destruct (hook d) as [e| |reason] eqn:H;
     [| |destruct (isNullish reason) eqn:N]|]|]|];
  rewrite ?catchBlock_frame.
  all: repeat match goal with
       | |- context [finallyBlock ?w] =>
           let r := fresh "r" in
           let post := fresh "post" in
           let E := fresh "E" in
           let F := fresh "F" in
           destruct (finallyBlock_spec w) as (r & post & E & F & _);
           rewrite E; clear E
       end.
  all: js; autorewrite with obs.
  all: repeat match goal with F : responses _ = [] |- _ => rewrite F; clear F end.
  all: reflexivity.
Qed.

(** The [try]/[catch] leaves [$contractContext.logger] alone. *)
Lemma attempt_logger c req w : logger (snd (attempt c req w)) = logger w.
Proof.
  rewrite attempt_eq; cbv zeta. destruct w as [l lg tr].
  destruct (validation c req) as [i|e];
    [destruct (completion (handler c i)) as [d|e];
     [destruct (beforeResponse c) as [hook|];
      [destruct (hook d) as [e| |reason]; [| |destruct (isNullish reason)]|]|]|];
    rewrite ?catchBlock_frame; reflexivity.
Qed.

(** Without a logger the handler completes as the [try]/[catch] did, after
    a notice on the console. *)
Lemma no_logger_notice c req :
  run c req None =
  (fst (attempt c req (startWorld None)),
   trace (snd (attempt c req (startWorld None))) ++ [EvConsoleLog "No logger defined"]).
Proof.
  rewrite run_eq.
  pose proof (attempt_logger c req (startWorld None)) as L.
  destruct (attempt c req (startWorld None)) as [r [lg ls tr]].
  cbn in L. subst lg. reflexivity.
Qed.

(** A failure of the logger that [.catch] absorbs does not reach the
    request handler's promise. *)
Lemma logger_absorbed c req fn :
  (forall delivered, absorbed (fn delivered) = true) ->
  fst (run c req (Some fn)) = fst (attempt c req (startWorld (Some fn))).
Proof.
  intros A. rewrite run_eq.
  pose proof (attempt_logger c req (startWorld (Some fn))) as L.
  destruct (attempt c req (startWorld (Some fn))) as [r [lg ls tr]].
  cbn in L. subst lg. unfold finallyBlock. js.
  specialize (A ls).
  destruct (fn ls) as [e| |reason]; [discriminate| |]; js; [reflexivity|].
  cbn [absorbed] in A. apply negb_true_iff in A. rewrite A. reflexivity.
Qed.

(** X16: a failure of [beforeResponse] that [.catch] absorbs (a rejection
    with a reason other than [null] and [undefined]) leaves the success
    envelope as it is; the hook was invoked once, with the handler's value. *)
Lemma beforeResponse_absorbed c req l inputs d hook :
  In inputs (handled (snd (run c req l))) ->
  completion (handler c inputs) = Normal d ->
  beforeResponse c = Some hook ->
  absorbed (hook d) = true ->
  responses (snd (run c req l)) = [success d] /\
  hooked (snd (run c req l)) = [d].
Proof.
  intros I K B A.
  apply handled_validation in I.
  destruct (parseCalls_quiet c req) as (Pr & Ph & Pk & Pe & Pf).
  rewrite run_eq, attempt_eq; cbv zeta. rewrite I, K, B.
  destruct (hook d) as [e| |reason]; [discriminate| |].
  - use_finally; js; autorewrite with obs; rewrite Pr, Pk, Fr, Fk; now obs.
  - cbn [absorbed] in A. apply negb_true_iff in A. rewrite A.
    use_finally; js; autorewrite with obs; rewrite Pr, Pk, Fr, Fk; now obs.
Qed.

(** X17: an error of the handler that is neither a [ZodError] nor a
    [ContractError] gives the generic failure envelope, and
    [onUnexpectedError] is invoked once with it, provided [.catch] absorbs
    what the hook does. *)
Lemma unexpected_error_response c req l inputs e :
  In inputs (handled (snd (run c req l))) ->
  completion (handler c inputs) = Throw e ->
  unexpected e = true ->
  (forall hook, onUnexpectedError c = Some hook -> absorbed (hook e) = true) ->
  responses (snd (run c req l)) = [somethingWentWrong] /\
  reported (snd (run c req l)) =
    match onUnexpectedError c with Some _ => [e] | None => [] end.
Proof.
  intros I K U A.
  apply handled_validation in I.
  destruct (parseCalls_quiet c req) as (Pr & Ph & Pk & Pe & Pf).
  rewrite run_eq, attempt_eq; cbv zeta. rewrite I, K.
  unfold catchBlock.
  destruct (onUnexpectedError c) as [hook|].
  - specialize (A hook eq_refl).
    destruct e; try discriminate U; js.
    all: destruct (hook _) as [e'| |reason]; try discriminate A; js.
    all: try (cbn [absorbed] in A; apply negb_true_iff in A; rewrite A; js).
    all: use_finally; js; autorewrite with obs; rewrite Pr, Pe, Fr, Fe; now obs.
  - destruct e; try discriminate U; js.
    all: use_finally; js; autorewrite with obs; rewrite Pr, Pe, Fr, Fe; now obs.
Qed.

(* ------------------------------------------------------------------ *)
(** * The claims *)

(** C1: every body handed to [res.json] is well formed: with [ok = true] the
    errors are empty and the data is the value the handler returned, whatever
    the [result] schema; with [ok = false] the data is [null] and there is at
    least one error message. *)
Theorem envelope_invariant c req l :
  Forall (wellFormed c (snd (run c req l))) (responses (snd (run c req l))).
Proof.
  destruct (parseCalls_quiet c req) as (Pr & Ph & Pk & Pe & Pf).
  branches c req; js; autorewrite with obs.
  all: rewrite ?Pr, ?Fr; obs; autorewrite with obs.
  all: try (eapply Forall_impl; [|eassumption]; intros; now apply wellFormed_failure).
  all: constructor; [|constructor].
  all: split; [intros _|cbn; congruence].
  all: split; [reflexivity|]; exists i; split; [|assumption].
  all: autorewrite with obs; rewrite ?Ph; obs; auto with datatypes.
Qed.



(** C3 as stated fails: an issue whose message contains the separator is cut
    in two, so one reported issue gives two error strings. *)
Lemma one_message_per_issue_counterexample :
  firstFailure (queryRejects splitIssues) sampleRequest Query (ZodError splitIssues) /\
  responses (snd (run (queryRejects splitIssues) sampleRequest None)) =
    [{| ok := false; data := JsNull; errors := ["a"; "b"] |}] /\
  ["a"; "b"] <> map fromZodIssue splitIssues /\
  length ["a"; "b"] <> length splitIssues.
Proof.
  repeat split; try discriminate.
  intros ch' H; destruct ch'; cbn in H; lia.
Qed.

(** C3, amended: when the first failing validator raises a [ZodError] with
    at least one issue, and the messages of its issues are unambiguous (none
    contains [";;;"], none but the last ends with a semicolon), the response is
    the failure envelope with exactly the issues' messages, in order. *)
Theorem one_message_per_issue c req l ch issues :
  firstFailure c req ch (ZodError issues) ->
  issues <> [] ->
  unambiguous (map fromZodIssue issues) = true ->
  responses (snd (run c req l)) =
    [{| ok := false; data := JsNull; errors := map fromZodIssue issues |}].
Proof.
  intros F NE U.
  apply firstFailure_validation in F.
  destruct (parseCalls_quiet c req) as (Pr & Ph & Pk & Pe & Pf).
  rewrite run_eq, attempt_eq; cbv zeta. rewrite F.
  unfold catchBlock, fromZodError. js. use_finally. js. autorewrite with obs.
  rewrite Pr, Fr. obs.
  rewrite split_concat; [reflexivity| |assumption].
  destruct issues; [congruence|discriminate].
Qed.

Lemma one_message_per_issue_witness :
  responses (snd (run (queryRejects sampleIssues) sampleRequest None)) =
    [{| ok := false; data := JsNull; errors := map fromZodIssue sampleIssues |}].
Proof.
  apply (@one_message_per_issue _ _ None Query).
  - split; [reflexivity|]. intros ch' H; destruct ch'; cbn in H; lia.
  - discriminate.
  - reflexivity.
Defined.

(** C4: when the handler's run calls [ctx.error(message, code)], the response
    is the failure envelope with [message] as its only error; the envelope is
    the same for every [code], which occurs nowhere in it. *)
Theorem business_error c req l inputs message code :
  In inputs (handled (snd (run c req l))) ->
  firstError (handler c inputs) = Some (message, Some code) ->
  responses (snd (run c req l)) =
    [{| ok := false; data := JsNull; errors := [message] |}].
Proof.
  intros I E.
  apply handled_validation in I. apply firstError_completion in E.
  destruct (parseCalls_quiet c req) as (Pr & Ph & Pk & Pe & Pf).
  rewrite run_eq, attempt_eq; cbv zeta. rewrite I, E.
  unfold catchBlock. js. use_finally. js. autorewrite with obs.
  rewrite Pr, Fr. reflexivity.
Qed.

Lemma business_error_witness :
  responses (snd (run (bare badInputHandler) sampleRequest None)) =
    [{| ok := false; data := JsNull; errors := ["bad input"] |}].
Proof.
  apply (@business_error (bare badInputHandler) sampleRequest None
           (Inputs.mk (Request.query sampleRequest) (Request.params sampleRequest)
                      (Request.body sampleRequest) (Request.headers sampleRequest))
           "bad input" 422%Z).
  - simpl. left. reflexivity.
  - reflexivity.
Defined.

(** C5 at its failing inputs: the handler fails with an error of its own
    and [onUnexpectedError] fails, by throwing before it returns a promise or
    by rejecting without a reason.  The hook is invoked once with the original
    error, but its failure leaves the [catch] block: [res.json] is never
    called and the request handler's promise rejects. *)
Theorem onUnexpectedError_failure_escapes :
  run (withOnUnexpectedError throwingHook) sampleRequest None =
    (Throw (JsError "hook down"),
     [EvParse Headers (Request.headers sampleRequest);
      EvHandler (Inputs.mk (Request.query sampleRequest) (Request.params sampleRequest)
                           (Request.body sampleRequest) (Request.headers sampleRequest));
      EvOnUnexpectedError (JsError "db down");
      EvConsoleLog "No logger defined"]) /\
  run (withOnUnexpectedError bareRejectingHook) sampleRequest None =
    (Throw stackTypeError,
     [EvParse Headers (Request.headers sampleRequest);
      EvHandler (Inputs.mk (Request.query sampleRequest) (Request.params sampleRequest)
                           (Request.body sampleRequest) (Request.headers sampleRequest));
      EvOnUnexpectedError (JsError "db down");
      EvConsoleLog "No logger defined"]).
Proof. split; reflexivity. Qed.


(** C7: without input validators the raw query, params and body reach the
    handler as they are; the headers alone are validated, against a mapping
    of string to string, and reach the handler only when they pass. *)
Theorem raw_inputs_pass_through c req l :
  query c = None -> params c = None -> body c = None -> headers c = None ->
  In (EvParse Headers (Request.headers req)) (snd (run c req l)) /\
  parsed (snd (run c req l)) = [Headers] /\
  match zRecordString (Request.headers req) with
  | Normal h =>
      handled (snd (run c req l)) =
        [Inputs.mk (Request.query req) (Request.params req) (Request.body req) h]
  | Throw e =>
      handled (snd (run c req l)) = [] /\
      exists issues,
        e = ZodError issues /\
        responses (snd (run c req l)) =
          [{| ok := false; data := JsNull;
              errors := split ";;;" (fromZodError ";;;" issues) |}]
  end.
Proof.
  intros Q P B H.
  assert (V : validation c req =
              match zRecordString (Request.headers req) with
              | Normal h => Normal (Inputs.mk (Request.query req) (Request.params req)
                                              (Request.body req) h)
              | Throw e => Throw e
              end).
  { unfold validation, resultOf, parseInputs. rewrite Q, P, B, H. js.
    now destruct (zRecordString (Request.headers req)). }
  assert (C : parseCalls c req = [EvParse Headers (Request.headers req)]).
  { unfold parseCalls, eventsOf, parseInputs. rewrite Q, P, B, H. js.
    now destruct (zRecordString (Request.headers req)). }
  assert (Z : forall e, zRecordString (Request.headers req) = Throw e ->
                        exists issues, e = ZodError issues).
  { unfold zRecordString. intros e.
    destruct (Request.headers req); try (intros [= <-]; eauto).
    destruct (filter _ fields); intros [= <-]; eauto. }
  rewrite run_eq, attempt_eq; cbv zeta. rewrite V, C.
  destruct (zRecordString (Request.headers req)) as [h|e] eqn:R.
  - destruct (completion (handler c _)) as [d|e] eqn:K;
     [destruct (beforeResponse c) as [hook|] eqn:Bf;
      [destruct (hook d) as [e| |reason] eqn:Hk;
       [| |destruct (isNullish reason) eqn:N]|]|];
     try use_catch; use_finally; js; autorewrite with obs;
     rewrite ?Hh, ?Hp, ?Fh, ?Fp; obs;
     (split; [cbn [In]; auto|split; reflexivity]).
  - destruct (Z e eq_refl) as (issues & ->).
    unfold catchBlock. js. use_finally. js. autorewrite with obs.
    rewrite ?Fh, ?Fp, ?Fr; obs.
    split; [cbn [In]; auto|]. split; [reflexivity|]. split; [reflexivity|].
    exists issues. split; reflexivity.
Qed.

Lemma raw_inputs_pass_through_witness :
  handled (snd (run (bare sampleHandler) sampleRequest None)) =
    [Inputs.mk (Request.query sampleRequest) (Request.params sampleRequest)
               (Request.body sampleRequest) (Request.headers sampleRequest)].
Proof.
  exact (proj2 (proj2 (@raw_inputs_pass_through (bare sampleHandler) sampleRequest None
                         eq_refl eq_refl eq_refl eq_refl))).
Defined.

(** C8 at its failing inputs: the handler succeeds and [beforeResponse]
    fails, by throwing before it returns a promise or by rejecting without a
    reason.  The failure reaches the [catch] block and the response is the
    generic failure envelope instead of the success envelope. *)
Theorem beforeResponse_failure_replaces_success :
  completion (sampleHandler
                (Inputs.mk (Request.query sampleRequest) (Request.params sampleRequest)
                           (Request.body sampleRequest) (Request.headers sampleRequest)))
    = Normal (JsObject [("test", JsString "A")]) /\
  responses (snd (run (withBeforeResponse throwingHook) sampleRequest None)) =
    [somethingWentWrong] /\
  responses (snd (run (withBeforeResponse bareRejectingHook) sampleRequest None)) =
    [somethingWentWrong].
Proof. repeat split; reflexivity. Qed.

(** C9 at its failing inputs: the logger fails, by throwing before it
    returns a promise or by rejecting without a reason.  The response was sent
    and stays as it is, but the failure is not caught: it leaves the [finally]
    block and the request handler's promise rejects. *)
Theorem logger_failure_escapes :
  fst (run (bare sampleHandler) sampleRequest (Some throwingLogger)) =
    Throw (JsError "sink down") /\
  fst (run (bare sampleHandler) sampleRequest (Some bareRejectingLogger)) =
    Throw stackTypeError /\
  responses (snd (run (bare sampleHandler) sampleRequest (Some throwingLogger))) =
    [success (JsObject [("test", JsString "A")])] /\
  responses (snd (run (bare sampleHandler) sampleRequest (Some bareRejectingLogger))) =
    [success (JsObject [("test", JsString "A")])].
Proof. repeat split; reflexivity. Qed.

(** C10 at its failing input: on the unexpected-error branch with a failing
    [onUnexpectedError], [res.json] is called zero times. *)
Theorem no_response_when_hook_fails :
  length (responses (snd (run (withOnUnexpectedError throwingHook) sampleRequest
                              (Some quietLogger)))) = 0 /\
  length (responses (snd (run (withOnUnexpectedError bareRejectingHook) sampleRequest
                              (Some quietLogger)))) = 0.
Proof. split; reflexivity. Qed.

(* ------------------------------------------------------------------ *)
(** * Further properties of the handler *)

(** The handler from any world: it starts from a fresh [logs]. *)
Lemma contract_eq c req w :
  contract c req w =
  let '(r1, w1) := attempt c req {| logger := logger w; logs := []; trace := trace w |} in
  let '(r2, w2) := finallyBlock w1 in
  (match r2 with Normal _ => r1 | Throw e => Throw e end, w2).
Proof.
  unfold contract. js.
  destruct (attempt c req _) as [r1 w1].
  destruct (finallyBlock w1) as [[[]|e] w2]; reflexivity.
Qed.

(** The handler depends on the world through the logger alone. *)
Lemma contract_frame c req w :
  fst (contract c req w) = fst (run c req (logger w)) /\
  trace (snd (contract c req w)) = trace w ++ snd (run c req (logger w)) /\
  logger (snd (contract c req w)) = logger w /\
  logs (snd (contract c req w)) =
    logs (snd (contract c req (startWorld (logger w)))).
Proof.
  unfold run. rewrite !contract_eq, !attempt_eq; cbv zeta.
  destruct w as [l lg tr]. unfold startWorld. cbn [logger logs trace].
  destruct (validation c req) as [i|e] eqn:V;
  [destruct (completion (handler c i)) as [d|e] eqn:K;
   [destruct (beforeResponse c) as [hook|] eqn:B;
    [destruct (hook d) as [e| |reason] eqn:H;
     [| |destruct (isNullish reason) eqn:N]|]|]|];
  rewrite ?catchBlock_frame; unfold finallyBlock; js.
  all: destruct l as [fn|]; js;
    [match goal with
     | |- context [fn ?x] =>
         destruct (fn x) as [e'| |reason']; js;
         [| |destruct (isNullish reason'); js]
     end|].
  all: rewrite <- ?app_assoc; cbn [app]; repeat split; reflexivity.
Qed.

(** X1: a request does not see what earlier requests left behind.  From any
    world, the handler completes as in a fresh process with the same logger,
    appends exactly the calls it makes there to the trace, leaves
    [$contractContext.logger] as it was, and ends with the [logs] of this
    request alone. *)
Theorem request_isolation c req w :
  fst (contract c req w) = fst (run c req (logger w)) /\
  trace (snd (contract c req w)) = trace w ++ snd (run c req (logger w)) /\
  logger (snd (contract c req w)) = logger w /\
  logs (snd (contract c req w)) =
    logs (snd (contract c req (startWorld (logger w)))).
Proof. exact (contract_frame c req w). Qed.

(** X2: [defineLogger] composes with requests as a slot that the last
    writer wins: after [defineLogger(f)] and then [defineLogger(g)], in any
    world and whatever requests ran before, a request behaves as in a fresh
    process whose logger is [g], and it leaves [g] in place. *)
Theorem defineLogger_then_request c req f g w :
  fst (contract c req (defineLogger g (defineLogger f w))) =
    fst (run c req (Some g)) /\
  trace (snd (contract c req (defineLogger g (defineLogger f w)))) =
    trace w ++ snd (run c req (Some g)) /\
  logger (snd (contract c req (defineLogger g (defineLogger f w)))) = Some g.
Proof.
  destruct (contract_frame c req (defineLogger g (defineLogger f w)))
    as (R & T & L & _).
  cbn [defineLogger logger trace] in *. repeat split; assumption.
Qed.

(** *** Splitting and joining again *)

Lemma splitFrom_skip sep t : forall s cur,
  splitFrom sep (String.length t) cur (t ++ s)%string = splitFrom sep 0 cur s.
Proof.
  induction t as [|ch t IH]; intros s cur; [reflexivity|].
  cbn [String.length append splitFrom]. apply IH.
Qed.

Lemma prefix_append sep : forall s,
  String.prefix sep s = true -> exists s', s = (sep ++ s')%string.
Proof.
  induction sep as [|a sep IH]; intros s P.
  - exists s. reflexivity.
  - destruct s as [|b s]; [discriminate P|].
    cbn [String.prefix] in P.
    destruct (ascii_dec a b) as [<-|]; [|discriminate P].
    destruct (IH s P) as (s' & ->). exists s'. reflexivity.
Qed.

Lemma append_length (a b : string) :
  String.length (a ++ b)%string = String.length a + String.length b.
Proof. induction a as [|ch a IH]; cbn; [reflexivity|now rewrite IH]. Qed.

Lemma concat_cons sep m ms :
  ms <> [] -> String.concat sep (m :: ms) = (m ++ sep ++ String.concat sep ms)%string.
Proof. destruct ms; [congruence|reflexivity]. Qed.

(** Joining the pieces with the separator gives the string back. *)
Lemma concat_splitFrom a sep n : forall s cur,
  String.length s <= n ->
  String.concat (String a sep) (splitFrom (String a sep) 0 cur s) = (cur ++ s)%string.
Proof.
  induction n as [|n IH]; intros s cur L.
  - destruct s; [|cbn in L; lia]. cbn. now rewrite append_empty_r.
  - destruct s as [|ch rest]; [cbn; now rewrite append_empty_r|].
    cbn [splitFrom].
    destruct (String.prefix (String a sep) (String ch rest)) eqn:P.
    + apply prefix_append in P. destruct P as (s' & E).
      cbn [append] in E. injection E as -> ->.
      replace (String.length (String a sep) - 1) with (String.length sep)
        by (cbn [String.length]; lia).
      rewrite splitFrom_skip.
      rewrite concat_cons.
      * rewrite IH; [reflexivity|].
        cbn [String.length] in L. rewrite append_length in L. lia.
      * intros Z. pose proof (splitFrom_length (String a sep) s' 0 "") as G.
        rewrite Z in G. cbn in G. lia.
    + rewrite IH by (cbn [String.length] in L; lia).
      now rewrite append_assoc.
Qed.

Lemma concat_split sep s :
  sep <> "" -> String.concat sep (split sep s) = s.
Proof.
  intros NE. destruct sep as [|a sep]; [congruence|].
  unfold split. now rewrite (@concat_splitFrom a sep (String.length s)).
Qed.

(** *** The [catch] block by class of error *)

Lemma catchBlock_reported c e :
  reported (eventsOf (catchBlock c e)) =
  if unexpected e
  then match onUnexpectedError c with Some _ => [e] | None => [] end
  else [].
Proof.
  unfold eventsOf, catchBlock.
  destruct e; js; cbn [unexpected]; try reflexivity.
  all: destruct (onUnexpectedError c) as [hook|]; js;
    [match goal with
     | |- context [hook ?x] => destruct (hook x) as [e'| |reason]
     end; js; [| |destruct (isNullish reason); js]|]; reflexivity.
Qed.

Lemma catchBlock_unexpected c e :
  unexpected e = true ->
  forall b, In b (responses (eventsOf (catchBlock c e))) -> b = somethingWentWrong.
Proof.
  unfold eventsOf, catchBlock. intros U.
  destruct e; try discriminate U; js.
  all: destruct (onUnexpectedError c) as [hook|]; js;
    [match goal with
     | |- context [hook ?x] => destruct (hook x) as [e'| |reason]
     end; js; [| |destruct (isNullish reason); js]|].
  all: obs; cbn [In]; intros env G; try contradiction.
  all: destruct G as [<-|[]]; reflexivity.
Qed.

Lemma catchBlock_absorbed c e :
  hookAbsorbed (onUnexpectedError c) ->
  resultOf (catchBlock c e) = Normal tt /\
  length (responses (eventsOf (catchBlock c e))) = 1.
Proof.
  unfold hookAbsorbed, resultOf, eventsOf, catchBlock. intros A.
  destruct e; js; try (split; reflexivity).
  all: destruct (onUnexpectedError c) as [hook|]; js; [|split; reflexivity];
    match goal with
    | |- context [hook ?x] =>
        specialize (A hook x eq_refl); destruct (hook x) as [e'| |reason]
    end; js; try discriminate A; [split; reflexivity|].
  all: cbn [absorbed] in A; apply negb_true_iff in A; rewrite A; js.
  all: split; reflexivity.
Qed.

Lemma finallyBlock_absorbed w :
  loggerAbsorbed (logger w) ->
  exists post, finallyBlock w = (Normal tt, addEvents w post) /\ responses post = [].
Proof.
  unfold loggerAbsorbed, finallyBlock. destruct w as [[fn|] lg tr]; js; intros A.
  - specialize (A fn lg eq_refl).
    destruct (fn lg) as [e| |reason]; js; [discriminate A| |].
    + eexists; split; reflexivity.
    + cbn [absorbed] in A. apply negb_true_iff in A. rewrite A. js.
      eexists; split; [rewrite <- app_assoc; reflexivity|reflexivity].
  - eexists; split; reflexivity.
Qed.

(** X3: when the first failing validator raises a [ZodError], the one body
    handed to [res.json] is a failure whose errors are the message of that
    error split at [";;;"]; joined with [";;;"] again they give the message
    back, so no text is lost.  Neither the handler nor a hook is invoked. *)
Theorem validation_failure_response c req l ch issues :
  firstFailure c req ch (ZodError issues) ->
  responses (snd (run c req l)) =
    [{| ok := false; data := JsNull;
        errors := split ";;;" (fromZodError ";;;" issues) |}] /\
  String.concat ";;;" (split ";;;" (fromZodError ";;;" issues)) =
    fromZodError ";;;" issues /\
  handled (snd (run c req l)) = [] /\
  reported (snd (run c req l)) = [] /\
  hooked (snd (run c req l)) = [].
Proof.
  intros F. apply firstFailure_validation in F.
  destruct (parseCalls_quiet c req) as (Pr & Ph & Pk & Pe & Pf).
  rewrite run_eq, attempt_eq; cbv zeta. rewrite F.
  unfold catchBlock. js. use_finally. js. autorewrite with obs.
  rewrite Pr, Ph, Pk, Pe, Fr, Fh, Fk, Fe. obs.
  repeat split. apply concat_split. discriminate.
Qed.

Lemma validation_failure_response_witness :
  responses (snd (run (queryRejects splitIssues) sampleRequest None)) =
    [{| ok := false; data := JsNull; errors := ["a"; "b"] |}] /\
  String.concat ";;;" ["a"; "b"] = "a;;;b".
Proof.
  destruct (@validation_failure_response (queryRejects splitIssues) sampleRequest
              None Query splitIssues) as (R & J & _).
  - split; [reflexivity|]. intros ch' H; destruct ch'; cbn in H; lia.
  - split; [exact R|exact J].
Defined.

(** X4: a [ZodError] that the handler itself raises is answered like a
    failed input validation: its issues' messages become the errors of the
    response, and [onUnexpectedError] is not invoked. *)
Theorem handler_zod_error c req l inputs issues :
  In inputs (handled (snd (run c req l))) ->
  completion (handler c inputs) = Throw (ZodError issues) ->
  responses (snd (run c req l)) =
    [{| ok := false; data := JsNull;
        errors := split ";;;" (fromZodError ";;;" issues) |}] /\
  reported (snd (run c req l)) = [] /\
  hooked (snd (run c req l)) = [].
Proof.
  intros I K. apply handled_validation in I.
  destruct (parseCalls_quiet c req) as (Pr & Ph & Pk & Pe & Pf).
  rewrite run_eq, attempt_eq; cbv zeta. rewrite I, K.
  unfold catchBlock. js. use_finally. js. autorewrite with obs.
  rewrite Pr, Pk, Pe, Fr, Fk, Fe. obs. repeat split.
Qed.

Lemma handler_zod_error_witness :
  responses (snd (run (bare zodThrowingHandler) sampleRequest (Some quietLogger))) =
    [{| ok := false; data := JsNull;
        errors := split ";;;" (fromZodError ";;;" sampleIssues) |}] /\
  reported (snd (run (bare zodThrowingHandler) sampleRequest (Some quietLogger))) = [] /\
  hooked (snd (run (bare zodThrowingHandler) sampleRequest (Some quietLogger))) = [].
Proof.
  apply (@handler_zod_error (bare zodThrowingHandler) sampleRequest
           (Some quietLogger) sampleInputs sampleIssues).
  - simpl. left. reflexivity.
  - reflexivity.
Defined.

(** X5: a [ContractError] that reaches the [catch] block from the handler,
    thrown directly or by [ctx.error] and whatever its code, is answered with
    its message as the only error; no hook is invoked. *)
Theorem contract_error_response c req l inputs message code :
  In inputs (handled (snd (run c req l))) ->
  completion (handler c inputs) = Throw (ContractError message code) ->
  responses (snd (run c req l)) =
    [{| ok := false; data := JsNull; errors := [message] |}] /\
  reported (snd (run c req l)) = [] /\
  hooked (snd (run c req l)) = [].
Proof.
  intros I K. apply handled_validation in I.
  destruct (parseCalls_quiet c req) as (Pr & Ph & Pk & Pe & Pf).
  rewrite run_eq, attempt_eq; cbv zeta. rewrite I, K.
  unfold catchBlock. js. use_finally. js. autorewrite with obs.
  rewrite Pr, Pk, Pe, Fr, Fk, Fe. obs. repeat split.
Qed.

Lemma contract_error_response_witness :
  responses (snd (run (bare forbiddenHandler) sampleRequest None)) =
    [{| ok := false; data := JsNull; errors := ["forbidden"] |}] /\
  reported (snd (run (bare forbiddenHandler) sampleRequest None)) = [] /\
  hooked (snd (run (bare forbiddenHandler) sampleRequest None)) = [].
Proof.
  apply (@contract_error_response (bare forbiddenHandler) sampleRequest None
           sampleInputs "forbidden" 403%Z).
  - simpl. left. reflexivity.
  - reflexivity.
Defined.

(** X6: a validator that throws something other than a [ZodError] (and no
    [ContractError]) takes the unexpected-error path: the handler is not
    invoked, [onUnexpectedError] gets the thrown value, and the response is the
    generic failure, provided [.catch] absorbs what the hook does. *)
Theorem validator_unexpected_error c req l ch e :
  firstFailure c req ch e ->
  unexpected e = true ->
  hookAbsorbed (onUnexpectedError c) ->
  responses (snd (run c req l)) = [somethingWentWrong] /\
  reported (snd (run c req l)) =
    match onUnexpectedError c with Some _ => [e] | None => [] end /\
  handled (snd (run c req l)) = [].
Proof.
  intros F U A. apply firstFailure_validation in F.
  destruct (parseCalls_quiet c req) as (Pr & Ph & Pk & Pe & Pf).
  destruct (catchBlock_absorbed c e A) as (_ & One).
  pose proof (catchBlock_unexpected c e U) as Generic.
  pose proof (catchBlock_reported c e) as Rep. rewrite U in Rep.
  rewrite run_eq, attempt_eq; cbv zeta. rewrite F.
  use_catch. use_finally. js. autorewrite with obs.
  rewrite Pr, Ph, Pe, Fr, Fh, Fe, Hh, Rep, !app_nil_r. cbn [app].
  repeat split.
  destruct (responses (eventsOf (catchBlock c e))) as [|b [|b' rest]];
    try discriminate One.
  now rewrite (Generic b (or_introl eq_refl)).
Qed.

Lemma validator_unexpected_error_witness :
  responses (snd (run queryThrows sampleRequest None)) = [somethingWentWrong] /\
  reported (snd (run queryThrows sampleRequest None)) = [JsError "transform failed"] /\
  handled (snd (run queryThrows sampleRequest None)) = [].
Proof.
  apply (@validator_unexpected_error queryThrows sampleRequest None Query
           (JsError "transform failed")).
  - split; [reflexivity|]. intros ch' H; destruct ch'; cbn in H; lia.
  - reflexivity.
  - intros h x [= <-]. reflexivity.
Defined.

Lemma validation_passes c req q p b h :
  parseOutcome c req Query = Normal q ->
  parseOutcome c req Params = Normal p ->
  parseOutcome c req Body = Normal b ->
  parseOutcome c req Headers = Normal h ->
  validation c req = Normal (Inputs.mk q p b h) /\
  parsed (parseCalls c req) = configured c.
Proof.
  unfold configured, channels. intros Q P B H.
  parse_cases c req; cbn [filter]; try discriminate.
  all: split; [congruence|reflexivity].
Qed.

(** X7: when every channel passes, the handler is invoked exactly once, with
    what the validators returned (not the raw fields) for the channels that
    have one and the raw field for the others; every configured validator
    was invoked, in the fixed order. *)
Theorem parsed_inputs_reach_handler c req l q p b h :
  parseOutcome c req Query = Normal q ->
  parseOutcome c req Params = Normal p ->
  parseOutcome c req Body = Normal b ->
  parseOutcome c req Headers = Normal h ->
  handled (snd (run c req l)) = [Inputs.mk q p b h] /\
  parsed (snd (run c req l)) = configured c.
Proof.
  intros Q P B H.
  destruct (validation_passes c req Q P B H) as (V & Pp).
  destruct (parseCalls_quiet c req) as (Pr & Ph & Pk & Pe & Pf).
  rewrite run_eq, attempt_eq; cbv zeta. rewrite V.
  destruct (completion (handler c _)) as [d|e] eqn:K;
    [destruct (beforeResponse c) as [hook|] eqn:Bf;
     [destruct (hook d) as [e| |reason] eqn:Hk;
      [| |destruct (isNullish reason) eqn:N]|]|];
    try use_catch; use_finally; js; autorewrite with obs;
    rewrite ?Hh, ?Hp, ?Fh, ?Fp, Ph, Pp; obs; rewrite ?app_nil_r;
    split; reflexivity.
Qed.

Lemma parsed_inputs_reach_handler_witness :
  handled (snd (run paramsCoerced sampleRequest None)) =
    [Inputs.mk (Request.query sampleRequest) (JsObject [("id", JsNumber 42)])
               (Request.body sampleRequest) (Request.headers sampleRequest)] /\
  parsed (snd (run paramsCoerced sampleRequest None)) = [Params; Headers].
Proof.
  apply (@parsed_inputs_reach_handler paramsCoerced sampleRequest None); reflexivity.
Defined.





(** X11: when [.catch] absorbs what both hooks and the logger do, the
    request handler's promise fulfils on every request: no validator and no
    handler can make it reject. *)
Theorem promise_fulfils c req l :
  hookAbsorbed (onUnexpectedError c) ->
  hookAbsorbed (beforeResponse c) ->
  loggerAbsorbed l ->
  fst (run c req l) = Normal tt.
Proof.
  intros A B L.
  rewrite run_eq, attempt_eq; cbv zeta.
  destruct (validation c req) as [i|e] eqn:V;
  [destruct (completion (handler c i)) as [d|e] eqn:K;
   [destruct (beforeResponse c) as [hook|] eqn:Bf;
    [pose proof (B hook d eq_refl) as Bd;
     destruct (hook d) as [e| |reason] eqn:H;
     [discriminate Bd| |cbn [absorbed] in Bd; apply negb_true_iff in Bd; rewrite Bd]
    |]|]|].
  all: rewrite ?catchBlock_frame.
  all: try match goal with
           | |- context [resultOf (catchBlock ?c0 ?e)] =>
               destruct (catchBlock_absorbed c0 e A) as (-> & _)
           end.
  all: match goal with
       | |- context [finallyBlock ?w] =>
           destruct (@finallyBlock_absorbed w L) as (post & -> & _)
       end; reflexivity.
Qed.

Lemma promise_fulfils_witness :
  fst (run queryThrows sampleRequest (Some rejectingLogger)) = Normal tt.
Proof.
  apply (@promise_fulfils queryThrows sampleRequest (Some rejectingLogger)).
  - intros h x [= <-]. reflexivity.
  - intros h x E. discriminate E.
  - intros fn delivered [= <-]. reflexivity.
Defined.

(** X12: a logger whose failures [.catch] absorbs does not change how the
    request handler's promise settles: it settles as without a logger. *)
Theorem logger_completion c req l :
  loggerAbsorbed l ->
  fst (run c req l) = fst (run c req None).
Proof.
  intros L.
  assert (L0 : loggerAbsorbed None) by (intros fn d E; discriminate E).
  rewrite !run_eq, !attempt_eq; cbv zeta.
  destruct (validation c req) as [i|e] eqn:V;
  [destruct (completion (handler c i)) as [d|e] eqn:K;
   [destruct (beforeResponse c) as [hook|] eqn:B;
    [destruct (hook d) as [e| |reason] eqn:H;
     [| |destruct (isNullish reason) eqn:N]|]|]|];
  rewrite ?catchBlock_frame.
  all: repeat match goal with
       | |- context [finallyBlock ?w] =>
           let post := fresh "post" in
           let E := fresh "E" in
           first [destruct (@finallyBlock_absorbed w L) as (post & E & _)
                 |destruct (@finallyBlock_absorbed w L0) as (post & E & _)];
           rewrite E; clear E
       end.
  all: reflexivity.
Qed.

Lemma logger_completion_witness :
  fst (run (bare badInputHandler) sampleRequest (Some rejectingLogger)) =
  fst (run (bare badInputHandler) sampleRequest None).
Proof.
  apply (@logger_completion (bare badInputHandler) sampleRequest (Some rejectingLogger)).
  intros fn delivered [= <-]. reflexivity.
Defined.



Lemma beforeResponse_absorbed_witness :
  responses (snd (run (withBeforeResponse rejectingHook) sampleRequest None)) =
    [success (JsObject [("test", JsString "A")])] /\
  hooked (snd (run (withBeforeResponse rejectingHook) sampleRequest None)) =
    [JsObject [("test", JsString "A")]].
Proof.
  apply (@beforeResponse_absorbed (withBeforeResponse rejectingHook) sampleRequest
           None sampleInputs (JsObject [("test", JsString "A")]) rejectingHook).
  - simpl. left. reflexivity.
  - reflexivity.
  - reflexivity.
  - reflexivity.
Defined.

Lemma unexpected_error_response_witness :
  responses (snd (run (withOnUnexpectedError rejectingHook) sampleRequest None)) =
    [somethingWentWrong] /\
  reported (snd (run (withOnUnexpectedError rejectingHook) sampleRequest None)) =
    [JsError "db down"].
Proof.
  apply (@unexpected_error_response (withOnUnexpectedError rejectingHook)
           sampleRequest None sampleInputs (JsError "db down")).
  - simpl. left. reflexivity.
  - reflexivity.
  - reflexivity.
  - intros hook [= <-]. reflexivity.
Defined.
